(** * Role-based access check ([03-roleBasedAccess.ts])

    A shallow embedding of the module's run-time behaviour
    ([userAccessModel], [canUserAccess]) and of the two types it derives
    from the table ([Role], [Action]), followed by the properties the
    specification states about them. *)

From stdpp Require Import gmap strings list fin_maps fin_sets.

Set Warnings "-clear-no-such-hyp".

Open Scope string_scope.

(** ** Run-time values and exceptions *)

(** What [userAccessModel[role]] can evaluate to at run time when [role] is
    an arbitrary string: the array stored under an own key, a member
    inherited from [Object.prototype] (a built-in function, or the prototype
    object itself for [__proto__]), or [undefined]. *)
Inductive value : Type :=
  | VUndefined
  | VArray (elems : list string)
  | VInherited (name : string).

(** A thrown JavaScript error object: its [name] and [message]. *)
Record error : Type := Error { error_name : string; error_message : string }.

Definition TypeError (msg : string) : error := Error "TypeError" msg.

Inductive completion (A : Type) : Type :=
  | Return (a : A)
  | Throw (e : error).
Arguments Return {A} a.
Arguments Throw {A} e.

(** ** The module's store *)

(** The module has one top-level binding, the object literal
    [userAccessModel]: string keys, each holding an array of strings.
    [as const] only changes its static type; at run time it is an ordinary
    object. *)
Record store : Type := Store { st_userAccessModel : gmap string (list string) }.

(** [const userAccessModel = { user: [...], admin: [...], anonymous: [...] }] *)
Definition userAccessModel : gmap string (list string) :=
  <["user" := ["update-self"; "view"]]>
  (<["admin" := ["create"; "update-self"; "update-any"; "delete"; "view"]]>
  (<["anonymous" := ["view"]]> ∅)).

(** The store once the module has been evaluated. *)
Definition initial_store : store := Store userAccessModel.

(** ** A state-and-exception monad for the function body *)

Definition M (A : Type) : Type := store → completion A * store.

Definition throw {A} (e : error) : M A := λ σ, (Throw e, σ).

#[global] Instance M_ret : MRet M := λ A a σ, (Return a, σ).

#[global] Instance M_bind : MBind M := λ A B k m σ,
  match m σ with
  | (Return a, σ') => k a σ'
  | (Throw e, σ') => (Throw e, σ')
  end.

(** ** Property access and [Array.prototype.includes] *)

(** Property names every ordinary object inherits from [Object.prototype]. *)
Definition Object_prototype_keys : list string :=
  [ "constructor"; "hasOwnProperty"; "isPrototypeOf"; "propertyIsEnumerable";
    "toLocaleString"; "toString"; "valueOf"; "__proto__";
    "__defineGetter__"; "__defineSetter__";
    "__lookupGetter__"; "__lookupSetter__" ].

(** [obj[key]]: an own property first, then the prototype, else
    [undefined]. *)
Definition get_property (obj : gmap string (list string)) (key : string) : value :=
  match obj !! key with
  | Some elems => VArray elems
  | None =>
      if bool_decide (key ∈ Object_prototype_keys) then VInherited key
      else VUndefined
  end.

(** [userAccessModel[key]] in the current store. *)
Definition read_userAccessModel (key : string) : M value :=
  λ σ, (Return (get_property (st_userAccessModel σ) key), σ).

(** [Array.prototype.includes] on an array of strings: a left-to-right scan
    comparing with SameValueZero, which on strings is string equality. *)
Fixpoint Array_includes (elems : list string) (searchElement : string) : bool :=
  match elems with
  | [] => false
  | x :: rest =>
      if String.eqb x searchElement then true
      else Array_includes rest searchElement
  end.

(** The method call [v.includes(searchElement)]: reading a property of
    [undefined] throws, and so does calling the missing [includes] of an
    inherited member. *)
Definition call_includes (v : value) (searchElement : string) : M bool :=
  match v with
  | VArray elems => mret (Array_includes elems searchElement)
  | VUndefined =>
      throw (TypeError "Cannot read properties of undefined (reading 'includes')")
  | VInherited _ =>
      throw (TypeError "possibleActions.includes is not a function")
  end.

(** ** The access check *)

(** [[
export const canUserAccess = (role: Role, action: Action) => {
  const possibleActions = userAccessModel[role];
  return possibleActions.includes(action as any);
};
]] *)
Definition canUserAccess (role action : string) : M bool :=
  possibleActions ← read_userAccessModel role;
  call_includes possibleActions action.

(** Result and final store of one call made right after module
    initialisation. *)
Definition call (role action : string) : completion bool * store :=
  canUserAccess role action initial_store.

(** A sequence of calls, each started in the store the previous one left. *)
Fixpoint run_calls (calls : list (string * string)) (σ : store)
  : list (completion bool) * store :=
  match calls with
  | [] => ([], σ)
  | (role, action) :: rest =>
      let '(r, σ') := canUserAccess role action σ in
      let '(rs, σ'') := run_calls rest σ' in
      (r :: rs, σ'')
  end.

(** ** The derived types *)

(** [type Role = keyof typeof userAccessModel]: the keys of the table. *)
Definition Role : gset string := dom userAccessModel.

(** [type UserAccessModelValues = typeof userAccessModel[Role]]: the union
    of the tuples stored under the keys in [Role]. *)
Definition UserAccessModelValues : gset (list string) :=
  set_omap (λ role, userAccessModel !! role) Role.

(** [type Action = UserAccessModelValues[number]]: every member of every
    tuple. *)
Definition Action : gset string :=
  set_bind (λ elems : list string, list_to_set elems) UserAccessModelValues.

(** ** The specification's tables *)

(** The closed role set of the specification's data model. *)
Definition RoleSet_spec : list string := ["user"; "admin"; "anonymous"].

(** The closed action set of the specification's data model. *)
Definition ActionSet_spec : list string :=
  ["create"; "update-self"; "update-any"; "delete"; "view"].

(** The permission table as the specification prints it, row by row. *)
Definition PermissionTable_spec (role : string) : list string :=
  if String.eqb role "user" then ["update-self"; "view"]
  else if String.eqb role "admin" then
    ["create"; "update-self"; "update-any"; "delete"; "view"]
  else if String.eqb role "anonymous" then ["view"]
  else [].

(** The error the specification names for out-of-set arguments. *)
Definition raises_InvalidArgument (r : completion bool) : Prop :=
  ∃ e, r = Throw e ∧ error_name e = "InvalidArgument".

(** ** The typed call site *)

(** A call [canUserAccess(role, action)] checked against the signature of
    line 40, [(role: Role, action: Action)]. The compiler rejects the call
    ([None]) unless the first argument is assignable to [Role] and the
    second to [Action]; a call it accepts runs as [call], the types being
    erased at run time. *)
Definition typed_call (role action : string)
  : option (completion bool * store) :=
  if bool_decide (role ∈ Role ∧ action ∈ Action)
  then Some (call role action)
  else None.

(** ** Permission sets and the un-cast call *)

(** [canUserAccess(role, action)], called after module initialisation,
    returns [true]. *)
Definition permits (role action : string) : Prop :=
  call role action = (Return true, initial_store).

(** The parameter type of [possibleActions.includes] when it is called
    without the cast of line 42. [possibleActions] has the union type
    [UserAccessModelValues], so an argument must suit the [includes] of
    every tuple of the union: the parameter type is the intersection of
    their member types. The source quotes it in the compiler error of
    lines 49-51 and 133-134. *)
Definition includes_parameter_type : gset string :=
  filter (λ action,
            set_Forall (λ elems : list string, action ∈ elems)
                       UserAccessModelValues)
         Action.

(** * Properties *)

(** ** Evaluation lemmas *)

Lemma canUserAccess_eval σ role action :
  canUserAccess role action σ
  = call_includes (get_property (st_userAccessModel σ) role) action σ.
Proof. reflexivity. Qed.

Lemma call_includes_store v x σ : (call_includes v x σ).2 = σ.
Proof. by destruct v. Qed.

Lemma canUserAccess_store σ role action :
  (canUserAccess role action σ).2 = σ.
Proof. rewrite canUserAccess_eval. apply call_includes_store. Qed.

Lemma canUserAccess_own σ role elems action :
  st_userAccessModel σ !! role = Some elems →
  canUserAccess role action σ = (Return (Array_includes elems action), σ).
Proof.
  intros Hown. rewrite canUserAccess_eval.
  unfold get_property. by rewrite Hown.
Qed.

Lemma canUserAccess_missing σ role action :
  st_userAccessModel σ !! role = None →
  ∃ msg, canUserAccess role action σ = (Throw (TypeError msg), σ).
Proof.
  intros Hnone. rewrite canUserAccess_eval.
  unfold get_property. rewrite Hnone.
  case_bool_decide; simpl; eauto.
Qed.

Lemma run_calls_store calls σ : (run_calls calls σ).2 = σ.
Proof.
  induction calls as [|[role action] rest IH]; simpl; [done|].
  pose proof (canUserAccess_store σ role action) as Hσ.
  destruct (canUserAccess role action σ) as [r σ']; simpl in Hσ; subst σ'.
  by destruct (run_calls rest σ) as [rs σ''].
Qed.

Lemma Array_includes_true elems x :
  Array_includes elems x = true ↔ x ∈ elems.
Proof.
  induction elems as [|y rest IH]; simpl.
  - split; [done|]. by intros ?%elem_of_nil.
  - rewrite elem_of_cons.
    destruct (String.eqb_spec y x) as [->|Hne]; [naive_solver|].
    rewrite IH. naive_solver.
Qed.

(** ** The table, key by key *)

Lemma RoleSet_spec_cases role :
  role ∈ RoleSet_spec ↔ role = "user" ∨ role = "admin" ∨ role = "anonymous".
Proof. unfold RoleSet_spec. set_solver. Qed.

Lemma userAccessModel_row role :
  role ∈ RoleSet_spec →
  userAccessModel !! role = Some (PermissionTable_spec role).
Proof. rewrite RoleSet_spec_cases. by intros [->|[->| ->]]. Qed.

Lemma userAccessModel_no_row role :
  role ∉ RoleSet_spec → userAccessModel !! role = None.
Proof.
  rewrite RoleSet_spec_cases. intros Hout. unfold userAccessModel.
  rewrite !lookup_insert_ne, lookup_empty by naive_solver. done.
Qed.

Lemma Role_closed : Role = list_to_set RoleSet_spec.
Proof. by vm_compute. Qed.

Lemma Action_closed : Action = list_to_set ActionSet_spec.
Proof. by vm_compute. Qed.

Lemma elem_of_Role role : role ∈ Role ↔ role ∈ RoleSet_spec.
Proof. rewrite Role_closed. apply elem_of_list_to_set. Qed.

Lemma elem_of_Action action : action ∈ Action ↔ action ∈ ActionSet_spec.
Proof. rewrite Action_closed. apply elem_of_list_to_set. Qed.

Lemma PermissionTable_spec_closed role :
  PermissionTable_spec role ⊆ ActionSet_spec.
Proof.
  unfold PermissionTable_spec, ActionSet_spec.
  repeat case_match; intros x Hx; set_unfold; tauto.
Qed.

Lemma call_row role action :
  role ∈ RoleSet_spec →
  call role action
  = (Return (Array_includes (PermissionTable_spec role) action), initial_store).
Proof.
  intros Hrole. unfold call.
  apply canUserAccess_own. simpl. by apply userAccessModel_row.
Qed.

(** ** Claims *)

(** C1. For every role in {user, admin, anonymous} and every action in
    {create, update-self, update-any, delete, view}, the call
    [canUserAccess(role, action)] returns a boolean that is [true] exactly
    when the action is listed in that role's row of the specification's
    permission table. *)
Theorem canUserAccess_table_membership role action :
  role ∈ RoleSet_spec → action ∈ ActionSet_spec →
  ∃ b, call role action = (Return b, initial_store)
       ∧ (b = true ↔ action ∈ PermissionTable_spec role).
Proof.
  intros Hrole _. eexists. split; [by apply call_row|].
  apply Array_includes_true.
Qed.

Lemma canUserAccess_table_membership_witness :
  "user" ∈ RoleSet_spec ∧ "delete" ∈ ActionSet_spec
  ∧ ∃ b, call "user" "delete" = (Return b, initial_store)
         ∧ (b = true ↔ "delete" ∈ PermissionTable_spec "user").
Proof.
  assert (Hr : "user" ∈ RoleSet_spec) by compute_done.
  assert (Ha : "delete" ∈ ActionSet_spec) by compute_done.
  split; [exact Hr|]. split; [exact Ha|].
  exact (canUserAccess_table_membership "user" "delete" Hr Ha).
Defined.

(** C2. [canUserAccess] is deterministic and keeps no hidden state: in any
    store, a call made after an arbitrary sequence of earlier calls returns
    the same completion as the same call made before them, so the result is
    a function of the role, the action and the table alone. *)
Theorem canUserAccess_deterministic σ calls role action :
  (canUserAccess role action (run_calls calls σ).2).1
  = (canUserAccess role action σ).1.
Proof. by rewrite run_calls_store. Qed.

(** C3. For every role of type [Role] and every action of type [Action],
    [canUserAccess(role, action)] completes normally with a boolean: no
    exception is thrown and the store is left as it was. *)
Theorem canUserAccess_total role action :
  role ∈ Role → action ∈ Action →
  ∃ b : bool, call role action = (Return b, initial_store).
Proof.
  intros Hrole%elem_of_Role _. eexists. by apply call_row.
Qed.

Lemma canUserAccess_total_witness :
  "anonymous" ∈ Role ∧ "create" ∈ Action
  ∧ ∃ b : bool, call "anonymous" "create" = (Return b, initial_store).
Proof.
  assert (Hr : "anonymous" ∈ Role) by compute_done.
  assert (Ha : "create" ∈ Action) by compute_done.
  split; [exact Hr|]. split; [exact Ha|].
  exact (canUserAccess_total "anonymous" "create" Hr Ha).
Defined.

Lemma typed_call_accepted role action :
  role ∈ RoleSet_spec → action ∈ ActionSet_spec →
  ∃ b : bool, typed_call role action = Some (Return b, initial_store).
Proof.
  intros Hrole Haction. unfold typed_call.
  rewrite bool_decide_eq_true_2
    by (split; [by apply elem_of_Role|by apply elem_of_Action]).
  rewrite (call_row _ _ Hrole). eauto.
Qed.



(** X6. The function body validates nothing at run time and never raises
    [InvalidArgument]. When an argument outside the closed sets
    reaches it, a role of the table with an unknown action makes it return
    [false], and a role that is not a key of the table makes the run time
    throw a [TypeError]. *)
Theorem canUserAccess_unchecked role action :
  role ∉ RoleSet_spec ∨ action ∉ ActionSet_spec →
  ¬ raises_InvalidArgument (call role action).1
  ∧ if bool_decide (role ∈ RoleSet_spec)
    then call role action = (Return false, initial_store)
    else ∃ msg, call role action = (Throw (TypeError msg), initial_store).
Proof.
  intros Hout. case_bool_decide as Hrole.
  - destruct Hout as [?|Haction]; [done|].
    assert (Array_includes (PermissionTable_spec role) action = false) as Hno.
    { apply not_true_is_false. rewrite Array_includes_true.
      intros Hin. apply Haction.
      by apply (PermissionTable_spec_closed role). }
    rewrite (call_row _ _ Hrole), Hno. split; [|done].
    by intros (e & ? & _).
  - destruct (canUserAccess_missing initial_store role action) as [msg Hmsg];
      [by apply userAccessModel_no_row|].
    unfold call. rewrite Hmsg. split; [|by eauto].
    intros (e & [= <-] & ?). done.
Qed.

Lemma canUserAccess_unchecked_witness :
  ("user" ∉ RoleSet_spec ∨ "publish" ∉ ActionSet_spec)
  ∧ ¬ raises_InvalidArgument (call "user" "publish").1
  ∧ if bool_decide ("user" ∈ RoleSet_spec)
    then call "user" "publish" = (Return false, initial_store)
    else ∃ msg, call "user" "publish" = (Throw (TypeError msg), initial_store).
Proof.
  assert (Hout : "user" ∉ RoleSet_spec ∨ "publish" ∉ ActionSet_spec)
    by (right; compute_done).
  split; [exact Hout|].
  exact (canUserAccess_unchecked "user" "publish" Hout).
Defined.

(** C5. Every array of the permission table is free of duplicates, and no
    call mutates the table: a call to [canUserAccess] leaves any store as it
    found it, so after initialisation and any sequence of calls the table is
    still the literal the module defined. *)
Theorem userAccessModel_NoDup_immutable :
  map_Forall (λ _ elems, NoDup elems) userAccessModel
  ∧ (∀ σ role action, (canUserAccess role action σ).2 = σ)
  ∧ (∀ calls role action,
       st_userAccessModel
         (canUserAccess role action (run_calls calls initial_store).2).2
       = userAccessModel).
Proof.
  split; [|split].
  - compute_done.
  - apply canUserAccess_store.
  - intros calls role action.
    by rewrite canUserAccess_store, run_calls_store.
Qed.

(** C6. The type [Role] derived from the table is exactly
    {user, admin, anonymous} and the type [Action] derived from it is
    exactly {create, update-self, update-any, delete, view}: a string is
    accepted as a role (as an action) by the signature of [canUserAccess]
    if and only if it belongs to the corresponding closed set. *)
Theorem Role_Action_closed :
  Role = list_to_set RoleSet_spec
  ∧ Action = list_to_set ActionSet_spec
  ∧ (∀ role, role ∈ Role ↔ role ∈ RoleSet_spec)
  ∧ (∀ action, action ∈ Action ↔ action ∈ ActionSet_spec).
Proof.
  split; [apply Role_closed|]. split; [apply Action_closed|].
  split; [apply elem_of_Role|apply elem_of_Action].
Qed.

(** C7. [canUserAccess("admin", "delete")] returns [true]. *)
Theorem admin_can_delete :
  call "admin" "delete" = (Return true, initial_store).
Proof. reflexivity. Qed.

(** C8. [canUserAccess("user", "delete")] returns [false]. *)
Theorem user_cannot_delete :
  call "user" "delete" = (Return false, initial_store).
Proof. reflexivity. Qed.

(** C9. For every action of type [Action],
    [canUserAccess("admin", action)] returns [true]; and the permission set
    of every role is included in that of [admin]: whenever a call returns
    [true] for some role, the call with [admin] and the same action returns
    [true] as well. *)
Theorem admin_permits_every_action :
  (∀ action, action ∈ Action →
     call "admin" action = (Return true, initial_store))
  ∧ (∀ role action, (call role action).1 = Return true →
       (call "admin" action).1 = Return true).
Proof.
  assert (∀ action, action ∈ ActionSet_spec →
            call "admin" action = (Return true, initial_store)) as Hadmin.
  { intros action Haction. rewrite call_row by compute_done.
    do 2 f_equal. by apply Array_includes_true. }
  split.
  - intros action Haction%elem_of_Action. by apply Hadmin.
  - intros role action Hrole.
    destruct (decide (role ∈ RoleSet_spec)) as [Hin|Hout].
    + rewrite (call_row _ _ Hin) in Hrole. simpl in Hrole.
      injection Hrole as Hrow. apply Array_includes_true in Hrow.
      apply PermissionTable_spec_closed in Hrow.
      by rewrite (Hadmin _ Hrow).
    + destruct (canUserAccess_missing initial_store role action) as [msg Hmsg];
        [by apply userAccessModel_no_row|].
      unfold call in Hrole. by rewrite Hmsg in Hrole.
Qed.

Lemma admin_permits_every_action_witness :
  "update-any" ∈ Action
  ∧ call "admin" "update-any" = (Return true, initial_store)
  ∧ (call "user" "view").1 = Return true
  ∧ (call "admin" "view").1 = Return true.
Proof.
  assert (Ha : "update-any" ∈ Action) by compute_done.
  assert (Hu : (call "user" "view").1 = Return true) by reflexivity.
  split; [exact Ha|].
  split; [exact (proj1 admin_permits_every_action "update-any" Ha)|].
  split; [exact Hu|].
  exact (proj2 admin_permits_every_action "user" "view" Hu).
Defined.

(** C10. For every role of type [Role], [canUserAccess(role, "view")]
    returns [true]: every role, [anonymous] included, may view. *)
Theorem every_role_can_view role :
  role ∈ Role → call role "view" = (Return true, initial_store).
Proof.
  intros Hrole%elem_of_Role. rewrite (call_row _ _ Hrole).
  by apply RoleSet_spec_cases in Hrole as [->|[->| ->]].
Qed.

Lemma every_role_can_view_witness :
  "anonymous" ∈ Role
  ∧ call "anonymous" "view" = (Return true, initial_store).
Proof.
  assert (Hr : "anonymous" ∈ Role) by compute_done.
  split; [exact Hr|].
  exact (every_role_can_view "anonymous" Hr).
Defined.

(** ** Further properties of the access check *)

Lemma permits_iff role action :
  permits role action
  ↔ ∃ elems, userAccessModel !! role = Some elems ∧ action ∈ elems.
Proof.
  unfold permits, call. split.
  - intros Hcall. destruct (userAccessModel !! role) as [elems|] eqn:Hrow.
    + exists elems. split; [done|].
      rewrite (canUserAccess_own initial_store role elems) in Hcall by done.
      apply Array_includes_true. congruence.
    + destruct (canUserAccess_missing initial_store role action) as [msg Hmsg];
        [done|]. congruence.
  - intros (elems & Hrow & Hin).
    rewrite (canUserAccess_own initial_store role elems) by done.
    by apply Array_includes_true in Hin as ->.
Qed.

Lemma permits_row role action :
  permits role action
  ↔ role ∈ RoleSet_spec ∧ action ∈ PermissionTable_spec role.
Proof.
  rewrite permits_iff. split.
  - intros (elems & Hrow & Hin).
    destruct (decide (role ∈ RoleSet_spec)) as [Hrole|Hrole].
    + rewrite (userAccessModel_row _ Hrole) in Hrow. naive_solver.
    + rewrite (userAccessModel_no_row _ Hrole) in Hrow. done.
  - intros [Hrole Hin]. eauto using userAccessModel_row.
Qed.

Lemma ActionSet_spec_cases action :
  action ∈ ActionSet_spec
  ↔ action = "create" ∨ action = "update-self" ∨ action = "update-any"
    ∨ action = "delete" ∨ action = "view".
Proof. unfold ActionSet_spec. set_solver. Qed.

Lemma permits_admin action : action ∈ ActionSet_spec → permits "admin" action.
Proof. intros Hin. apply permits_row. split; [compute_done|done]. Qed.

(** X1. At run time the call completes normally exactly for the roles of
    type [Role], whatever string is passed as the action: the role is the
    only argument that can make it throw. *)
Theorem call_returns_iff_Role role action :
  (∃ b, (call role action).1 = Return b) ↔ role ∈ Role.
Proof.
  rewrite elem_of_Role. split.
  - intros [b Hb]. destruct (decide (role ∈ RoleSet_spec)) as [|Hout]; [done|].
    destruct (canUserAccess_missing initial_store role action) as [msg Hmsg];
      [by apply userAccessModel_no_row|].
    unfold call in Hb. by rewrite Hmsg in Hb.
  - intros Hrole. rewrite (call_row _ _ Hrole). eauto.
Qed.

(** X2. The type [Action] derived from the table is exactly the set of
    strings that some role is permitted: a string outside [Action] is never
    granted to any role, even though the cast lets it reach [includes]
    unchecked. *)
Theorem Action_iff_permitted action :
  action ∈ Action ↔ ∃ role, permits role action.
Proof.
  rewrite elem_of_Action. split.
  - intros Hin. exists "admin". by apply permits_admin.
  - intros [role [_ Hin]%permits_row].
    by apply (PermissionTable_spec_closed role).
Qed.

(** X3. Without the cast the call does not type-check, as the source's
    error message says: the parameter type of [includes] on the union of
    the rows is ["view"] alone, and [Action] is not included in it. At run
    time that type is the set of actions permitted to every role. *)
Theorem includes_parameter_type_view :
  includes_parameter_type = {["view"]}
  ∧ Action ⊈ includes_parameter_type
  ∧ ∀ action, action ∈ includes_parameter_type
              ↔ ∀ role, role ∈ Role → permits role action.
Proof.
  assert (includes_parameter_type = {["view"]}) as Hview by by vm_compute.
  split; [done|]. split.
  - rewrite Hview. intros Hsub.
    assert ("delete" ∈ Action) as Hdel%Hsub by compute_done.
    by apply elem_of_singleton in Hdel.
  - intros action. rewrite Hview, elem_of_singleton. split.
    + intros -> role [->|[->| ->]]%elem_of_Role%RoleSet_spec_cases;
        apply permits_row; split; compute_done.
    + intros Hall.
      assert ("anonymous" ∈ Role) as [_ Hin]%Hall%permits_row by compute_done.
      by apply list_elem_of_singleton in Hin.
Qed.

Lemma includes_parameter_type_view_witness :
  "view" ∈ includes_parameter_type ∧ "user" ∈ Role ∧ permits "user" "view".
Proof.
  assert (Hv : "view" ∈ includes_parameter_type) by compute_done.
  assert (Hr : "user" ∈ Role) by compute_done.
  split; [exact Hv|]. split; [exact Hr|].
  exact (proj1 (proj2 (proj2 includes_parameter_type_view) "view") Hv "user" Hr).
Defined.

(** X4. The three roles are ordered by privilege: whatever [anonymous] is
    permitted, [user] is permitted, and whatever [user] is permitted,
    [admin] is permitted; so of any two roles one has all the permissions
    of the other. *)
Theorem role_privilege_chain :
  (∀ action, permits "anonymous" action → permits "user" action)
  ∧ (∀ action, permits "user" action → permits "admin" action)
  ∧ ∀ r1 r2, r1 ∈ Role → r2 ∈ Role →
      (∀ action, permits r1 action → permits r2 action)
      ∨ (∀ action, permits r2 action → permits r1 action).
Proof.
  assert (∀ action, permits "anonymous" action → permits "user" action) as Hau.
  { intros action [_ Hin]%permits_row. apply permits_row.
    split; [compute_done|]. apply list_elem_of_singleton in Hin as ->.
    compute_done. }
  assert (∀ role action, permits role action → permits "admin" action) as Htop.
  { intros role action [_ Hin]%permits_row. apply permits_admin.
    by apply (PermissionTable_spec_closed role). }
  split; [done|]. split; [by apply Htop|].
  intros r1 r2 [->|[->| ->]]%elem_of_Role%RoleSet_spec_cases
               [->|[->| ->]]%elem_of_Role%RoleSet_spec_cases;
    first [by left; first [apply Htop|apply Hau|intros ?]
          |by right; first [apply Htop|apply Hau|intros ?]].
Qed.

Lemma role_privilege_chain_witness :
  permits "anonymous" "view" ∧ permits "user" "view" ∧ permits "admin" "view".
Proof.
  assert (Ha : permits "anonymous" "view") by reflexivity.
  split; [exact Ha|].
  split; [exact (proj1 role_privilege_chain "view" Ha)|].
  exact (proj1 (proj2 role_privilege_chain) "view"
           (proj1 role_privilege_chain "view" Ha)).
Defined.

(** X5. [create], [update-any] and [delete] are reserved to [admin]: for
    each of them the call returns [true] for the role [admin] and for no
    other string passed as the role. *)
Theorem admin_only_actions role action :
  action ∈ ["create"; "update-any"; "delete"] →
  permits role action ↔ role = "admin".
Proof.
  intros Haction. split.
  - intros [Hrole Hin]%permits_row.
    apply RoleSet_spec_cases in Hrole as [->|[->| ->]]; [|done|];
      exfalso; set_unfold; naive_solver.
  - intros ->. apply permits_admin. set_unfold. naive_solver.
Qed.

Lemma admin_only_actions_witness :
  "delete" ∈ ["create"; "update-any"; "delete"]
  ∧ (permits "user" "delete" ↔ "user" = "admin").
Proof.
  assert (Ha : "delete" ∈ ["create"; "update-any"; "delete"]) by compute_done.
  split; [exact Ha|].
  exact (admin_only_actions "user" "delete" Ha).
Defined.
